(** * livedev: the packaging descriptor and the watcher loop it installs

    The repository's [setup.py] is a single [setup(...)] call.  Part one
    embeds the file twice, as its text (one string per line) and as the
    syntax tree of the call, and relates the two by a reader for this shape
    of file.  Part two is the watcher loop of the installed script
    [livedev/livedev]. *)

From Stdlib Require Import List String Ascii Bool Arith Lia Permutation.
Import ListNotations.
Open Scope string_scope.
Open Scope list_scope.

(** ** Part one: [setup.py] *)

Module Setup.

(** The text of [setup.py], line by line.  The file ends without a final
    newline, after the closing parenthesis. *)
Definition setup_py : list string :=
  [ "from setuptools import setup"
  ; EmptyString
  ; "setup("
  ; "    name='livedev',"
  ; "    author='Samuel Angebault',"
  ; "    maintainer='Samuel Angebault',"
  ; "    description='',"
  ; "    license='MIT',"
  ; "    scripts=["
  ; "        'livedev/livedev'"
  ; "    ],"
  ; "    install_requires=["
  ; "        'inotify>=0.2.10',"
  ; "    ],"
  ; "    tests_require=["
  ; "        'pytest',"
  ; "    ],"
  ; "    packages=["
  ; "        'tests',"
  ; "    ],"
  ; "    # test_suite='setup.get_test_suite',"
  ; "    # test_suite='tests',"
  ; ")" ].

(** The values the call passes: string literals and lists of them. *)
Inductive PyValue : Type :=
  | PyStr (s : string)
  | PyList (items : list string).

(** The statements of the module. *)
Inductive Stmt : Type :=
  | ImportFrom (module_ name : string)
  | Call (func : string) (kwargs : list (string * PyValue)).

(** The keyword arguments of the [setup(...)] call, in source order. *)
Definition setup_kwargs : list (string * PyValue) :=
  [ ("name", PyStr "livedev")
  ; ("author", PyStr "Samuel Angebault")
  ; ("maintainer", PyStr "Samuel Angebault")
  ; ("description", PyStr EmptyString)
  ; ("license", PyStr "MIT")
  ; ("scripts", PyList ["livedev/livedev"])
  ; ("install_requires", PyList ["inotify>=0.2.10"])
  ; ("tests_require", PyList ["pytest"])
  ; ("packages", PyList ["tests"]) ].

(** The module: the import and the call. *)
Definition setup_module : list Stmt :=
  [ ImportFrom "setuptools" "setup"; Call "setup" setup_kwargs ].

(** *** Reading the text *)

Fixpoint lstrip (s : string) : string :=
  match s with
  | String " " r => lstrip r
  | _ => s
  end.

(** [break c s] splits [s] around the first occurrence of [c]. *)
Fixpoint break (c : ascii) (s : string) : option (string * string) :=
  match s with
  | EmptyString => None
  | String a r =>
      if Ascii.eqb a c then Some (EmptyString, r)
      else match break c r with
           | Some (x, y) => Some (String a x, y)
           | None => None
           end
  end.

(** What one physical line of the file can be. *)
Inductive Line : Type :=
  | LBlank
  | LComment
  | LImport (module_ name : string)
  | LOpen (func : string)
  | LClose
  | LKwStr (key value : string)
  | LKwList (key : string)
  | LItem (value : string)
  | LEndList
  | LOther.

(** A trailing comma is optional after an item and after a closing bracket. *)
Definition end_of_item (s : string) : bool :=
  match s with
  | EmptyString => true
  | String "," EmptyString => true
  | _ => false
  end.

Definition classify_keyword (s : string) : Line :=
  match break "=" s with
  | Some (k, String "[" EmptyString) => LKwList k
  | Some (k, String "'" r) =>
      match break "'" r with
      | Some (v, rest) => if end_of_item rest then LKwStr k v else LOther
      | None => LOther
      end
  | Some _ => LOther
  | None =>
      match break "(" s with
      | Some (f, EmptyString) => LOpen f
      | _ => LOther
      end
  end.

Definition classify_import (s : string) : Line :=
  match break " " s with
  | Some ("from", r) =>
      match break " " r with
      | Some (m, r') =>
          match break " " r' with
          | Some ("import", n) => LImport m n
          | _ => LOther
          end
      | None => LOther
      end
  | _ => LOther
  end.

Definition classify (line : string) : Line :=
  let s := lstrip line in
  match s with
  | EmptyString => LBlank
  | String "#" _ => LComment
  | String ")" EmptyString => LClose
  | String "]" r => if end_of_item r then LEndList else LOther
  | String "'" r =>
      match break "'" r with
      | Some (v, rest) => if end_of_item rest then LItem v else LOther
      | None => LOther
      end
  | _ => if prefix "from " s then classify_import s else classify_keyword s
  end.

(** Where the reader is: between statements, inside the argument list of a
    call, or inside a list literal of that call. *)
Inductive Mode : Type :=
  | Top
  | InCall (func : string) (acc : list (string * PyValue))
  | InList (func : string) (acc : list (string * PyValue))
           (key : string) (items : list string).

Fixpoint read (m : Mode) (out : list Stmt) (ls : list string)
  : option (list Stmt) :=
  match ls with
  | [] => match m with Top => Some out | _ => None end
  | l :: ls' =>
      match m, classify l with
      | _, LBlank | _, LComment => read m out ls'
      | Top, LImport md n => read Top (out ++ [ImportFrom md n]) ls'
      | Top, LOpen f => read (InCall f []) out ls'
      | InCall f acc, LKwStr k v => read (InCall f (acc ++ [(k, PyStr v)])) out ls'
      | InCall f acc, LKwList k => read (InList f acc k []) out ls'
      | InCall f acc, LClose => read Top (out ++ [Call f acc]) ls'
      | InList f acc k items, LItem v => read (InList f acc k (items ++ [v])) out ls'
      | InList f acc k items, LEndList =>
          read (InCall f (acc ++ [(k, PyList items)])) out ls'
      | _, _ => None
      end
  end.

Definition read_module (ls : list string) : option (list Stmt) := read Top [] ls.

(** The lines that carry code: neither blank nor comment. *)
Definition is_code (l : string) : bool :=
  match classify l with
  | LBlank | LComment => false
  | _ => true
  end.

(** *** Looking up what the call declares *)

Fixpoint kwarg (k : string) (kws : list (string * PyValue)) : option PyValue :=
  match kws with
  | [] => None
  | (k', v) :: r => if String.eqb k k' then Some v else kwarg k r
  end.

(** A list-valued keyword; setuptools takes an absent one as empty. *)
Definition kwlist (k : string) (kws : list (string * PyValue)) : list string :=
  match kwarg k kws with
  | Some (PyList xs) => xs
  | _ => []
  end.

(** A script is installed under the last component of its path. *)
Fixpoint basename_from (cur : string) (s : string) : string :=
  match s with
  | EmptyString => cur
  | String "/" r => basename_from r r
  | String _ r => basename_from cur r
  end.

Definition basename (s : string) : string := basename_from s s.

(** A requirement string is a project name followed by a comparison
    operator and a version. *)
Definition is_operator_char (a : ascii) : bool :=
  existsb (Ascii.eqb a) ["<"; ">"; "="; "!"; "~"]%char.

Fixpoint span (p : ascii -> bool) (s : string) : string * string :=
  match s with
  | EmptyString => (EmptyString, EmptyString)
  | String a r =>
      if p a then let '(x, y) := span p r in (String a x, y)
      else (EmptyString, s)
  end.

Record Requirement : Type := {
  req_name : string;
  req_operator : string;
  req_version : string
}.

Definition parse_requirement (s : string) : Requirement :=
  let '(n, r) := span (fun a => negb (is_operator_char a)) s in
  let '(op, v) := span is_operator_char r in
  {| req_name := n; req_operator := op; req_version := v |}.

(** A string-valued keyword. *)
Definition kwstr (k : string) (kws : list (string * PyValue)) : option string :=
  match kwarg k kws with
  | Some (PyStr s) => Some s
  | _ => None
  end.

(** The project names of the requirements listed under a keyword. *)
Definition requirement_names (k : string) (kws : list (string * PyValue))
  : list string :=
  map (fun s => req_name (parse_requirement s)) (kwlist k kws).

(** What the module imports: the source module and the name it binds. *)
Definition imports (m : list Stmt) : list (string * string) :=
  flat_map (fun s => match s with
                     | ImportFrom md n => [(md, n)]
                     | Call _ _ => []
                     end) m.

(** Statements run in order: a call is to a name an earlier import bound. *)
Fixpoint calls_bound (bound : list string) (m : list Stmt) : bool :=
  match m with
  | [] => true
  | ImportFrom _ n :: r => calls_bound (n :: bound) r
  | Call f _ :: r => existsb (String.eqb f) bound && calls_bound bound r
  end.

(** The text without the lines numbered [first] to [last] (from 1). *)
Definition without_lines (first last : nat) (ls : list string) : list string :=
  firstn (first - 1) ls ++ skipn last ls.

End Setup.

(** ** Part two: the watcher loop

    [setup.py] installs the script [livedev/livedev] and depends on inotify;
    the script itself is not among the sources at hand.  The loop below is
    therefore written from the specification's contract of the
    watcher/reloader loop. *)

Module Watcher.

(** Modelled from the spec: the kind of a change notification (the script
    [livedev/livedev] is missing; the spec lists created, modified, deleted,
    moved). *)
Inductive EventKind : Type := Created | Modified | Deleted | Moved.

(** Modelled from the spec: a WatchTarget of the missing script, a path plus
    match rules; the rules are taken as file extensions. *)
Record WatchTarget : Type := {
  wt_path : string;
  wt_rules : list string
}.

(** Modelled from the spec: a ChangeEvent of the missing script, a path and
    a kind. *)
Record ChangeEvent : Type := {
  ev_path : string;
  ev_kind : EventKind
}.

(** Modelled from the spec: the status the action of the missing script
    reports, an exit code or a thrown error. *)
Inductive ActionResult : Type :=
  | Exited (code : nat)
  | Raised (msg : string).

Definition failed (r : ActionResult) : bool :=
  match r with
  | Exited 0 => false
  | _ => true
  end.

(** Modelled from the spec: the inputs of the missing loop: the watch
    targets, the action (an opaque collaborator, here the status of its
    k-th invocation) and the debounce interval in milliseconds. *)
Record Config : Type := {
  targets : list WatchTarget;
  action : nat -> ActionResult;
  debounce : nat
}.

Inductive Status : Type := Watching | Stopped.

(** What the loop does to the outside world, in order. *)
Inductive Effect : Type :=
  | Subscribed (w : WatchTarget)
  | Invoked (w : WatchTarget) (at_ : nat) (r : ActionResult)
  | Reported (at_ : nat) (r : ActionResult)
  | Released (w : WatchTarget).

(** Modelled from the spec: the WatcherState value owned by the missing
    loop: its clock, the OS subscriptions it holds, the debounce timers in
    flight (target and deadline) and the effects so far. *)
Record WatcherState : Type := {
  status : Status;
  now : nat;
  subs : list WatchTarget;
  timers : list (WatchTarget * nat);
  log : list Effect
}.

(** What arrives at the loop: a change notification, the passing of time,
    or the operator's interrupt. *)
Inductive Input : Type :=
  | Change (e : ChangeEvent)
  | Wait (dt : nat)
  | Interrupt.

Definition target_eq_dec (a b : WatchTarget) : {a = b} + {a <> b}.
Proof.
  decide equality; [apply (list_eq_dec string_dec) | apply string_dec].
Defined.

Definition target_eqb (a b : WatchTarget) : bool :=
  if target_eq_dec a b then true else false.

Definition rev_string (s : string) : string :=
  string_of_list_ascii (rev (list_ascii_of_string s)).

Definition ends_with (suffix s : string) : bool :=
  prefix (rev_string suffix) (rev_string s).

(** Modelled from the spec: whether a change event of the missing script is
    relevant to a target: it lies under the target's path and one of the
    target's rules selects it. *)
Definition matches (w : WatchTarget) (e : ChangeEvent) : bool :=
  prefix (wt_path w) (ev_path e)
  && existsb (fun r => ends_with r (ev_path e)) (wt_rules w).

(** The target an event belongs to: the first subscription it matches. *)
Definition target_of (ss : list WatchTarget) (e : ChangeEvent)
  : option WatchTarget :=
  find (fun w => matches w e) ss.

Definition is_invocation (x : Effect) : bool :=
  match x with Invoked _ _ _ => true | _ => false end.

(** The invocations in a log: which target's timer fired, and when. *)
Fixpoint invocations (l : list Effect) : list (WatchTarget * nat) :=
  match l with
  | [] => []
  | Invoked w t _ :: r => (w, t) :: invocations r
  | _ :: r => invocations r
  end.

Fixpoint released (l : list Effect) : list WatchTarget :=
  match l with
  | [] => []
  | Released w :: r => w :: released r
  | _ :: r => released r
  end.

Fixpoint reported (l : list Effect) : list (nat * ActionResult) :=
  match l with
  | [] => []
  | Reported t r :: l' => (t, r) :: reported l'
  | _ :: l' => reported l'
  end.

Definition with_timers (ts : list (WatchTarget * nat)) (st : WatcherState)
  : WatcherState :=
  {| status := status st; now := now st; subs := subs st;
     timers := ts; log := log st |}.

Definition with_log (l : list Effect) (st : WatcherState) : WatcherState :=
  {| status := status st; now := now st; subs := subs st;
     timers := timers st; log := l |}.

Definition with_now (t : nat) (st : WatcherState) : WatcherState :=
  {| status := status st; now := t; subs := subs st;
     timers := timers st; log := log st |}.

(** Modelled from the spec: startup of the missing loop: one OS
    subscription per distinct WatchTarget, no timer, watching. *)
Definition start (cfg : Config) : WatcherState :=
  let ws := nodup target_eq_dec (targets cfg) in
  {| status := Watching; now := 0; subs := ws; timers := [];
     log := map Subscribed ws |}.

(** Modelled from the spec: one invocation of the action by the missing
    loop, for the timer of [w] that elapsed at [t]: a failure is reported
    to the operator and nothing else changes. *)
Definition invoke (cfg : Config) (w : WatchTarget) (t : nat)
  (st : WatcherState) : WatcherState :=
  let r := action cfg (List.length (invocations (log st))) in
  with_log (log st ++ Invoked w t r :: (if failed r then [Reported t r] else []))
           st.

Definition is_due (t : nat) (p : WatchTarget * nat) : bool := (snd p <=? t)%nat.

(** The action is invoked once for each elapsed timer, in order. *)
Definition fire (cfg : Config) (due : list (WatchTarget * nat))
  (st : WatcherState) : WatcherState :=
  fold_left (fun s p => invoke cfg (fst p) (snd p) s) due st.

(** Modelled from the spec: timer firing in the missing loop: every timer
    whose deadline has been reached is destroyed and the action is invoked
    once for it. *)
Definition fire_due (cfg : Config) (st : WatcherState) : WatcherState :=
  let due := filter (is_due (now st)) (timers st) in
  let rest := filter (fun p => negb (is_due (now st) p)) (timers st) in
  fire cfg due (with_timers rest st).

(** (Re)starting the timer of [w]: the one in flight, if any, is
    superseded. *)
Definition restart (w : WatchTarget) (deadline : nat)
  (ts : list (WatchTarget * nat)) : list (WatchTarget * nat) :=
  filter (fun p => negb (target_eqb (fst p) w)) ts ++ [(w, deadline)].

(** Modelled from the spec: event receipt in the missing loop: an event
    matching a target's rules (re)starts that target's DebounceWindow
    timer; any other event is discarded. *)
Definition on_change (cfg : Config) (e : ChangeEvent) (st : WatcherState)
  : WatcherState :=
  match target_of (subs st) e with
  | Some w => with_timers (restart w (now st + debounce cfg) (timers st)) st
  | None => st
  end.

(** Time passes: the clock advances and the timers that elapse fire. *)
Definition wait (cfg : Config) (dt : nat) (st : WatcherState) : WatcherState :=
  fire_due cfg (with_now (now st + dt) st).

(** Modelled from the spec: the shutdown procedure of the missing loop:
    every subscription held is released, the timers in flight are abandoned
    and no action is invoked. *)
Definition shutdown (st : WatcherState) : WatcherState :=
  {| status := Stopped; now := now st; subs := []; timers := [];
     log := log st ++ map Released (subs st) |}.

(** Modelled from the spec: one turn of the missing loop; it runs until
    interrupted and handles nothing afterwards. *)
Definition step (cfg : Config) (st : WatcherState) (i : Input) : WatcherState :=
  match status st with
  | Stopped => st
  | Watching =>
      match i with
      | Change e => on_change cfg e st
      | Wait dt => wait cfg dt st
      | Interrupt => shutdown st
      end
  end.

Definition run (cfg : Config) (st : WatcherState) (tr : list Input)
  : WatcherState :=
  fold_left (step cfg) tr st.

(** Events as they arrive: each after a delay since the previous input. *)
Definition schedule (arrivals : list (nat * ChangeEvent)) : list Input :=
  flat_map (fun a => [Wait (fst a); Change (snd a)]) arrivals.

(** The arrival times of the events of a schedule that starts at [t0]. *)
Fixpoint arrival_times (t0 : nat) (arrivals : list (nat * ChangeEvent))
  : list nat :=
  match arrivals with
  | [] => []
  | (g, _) :: r => (t0 + g) :: arrival_times (t0 + g) r
  end.

(** How many timers are in flight for a target. *)
Definition active_timers (w : WatchTarget) (st : WatcherState) : nat :=
  List.length (filter (fun p => target_eqb (fst p) w) (timers st)).

(** The invariant of the data model: at most one debounce timer is active
    per watch target. *)
Definition one_timer_each (st : WatcherState) : Prop :=
  forall w, active_timers w st <= 1.

(** No target is both released and still subscribed, nor released twice. *)
Definition release_once (st : WatcherState) : Prop :=
  NoDup (released (log st) ++ subs st).

(** The invocations a widely spaced schedule leads to: one per relevant
    event, a debounce interval after its arrival. *)
Fixpoint settled (d : nat) (ss : list WatchTarget) (t0 : nat)
  (arrivals : list (nat * ChangeEvent)) : list (WatchTarget * nat) :=
  match arrivals with
  | [] => []
  | (g, e) :: r =>
      match target_of ss e with
      | Some w => (w, t0 + g + d) :: settled d ss (t0 + g) r
      | None => settled d ss (t0 + g) r
      end
  end.




End Watcher.

(** The scenarios of the specification: target [./src] with a 200 ms
    debounce, two touches 50 ms apart, an action that exits with status 1
    the first time. *)
Module Scenario.
Import Watcher.

Definition src : WatchTarget := {| wt_path := "./src"; wt_rules := [".py"] |}.

Definition exits_1_once (k : nat) : ActionResult :=
  match k with
  | 0 => Exited 1
  | _ => Exited 0
  end.

Definition cfg : Config :=
  {| targets := [src]; action := exits_1_once; debounce := 200 |}.

Definition touch_a : ChangeEvent :=
  {| ev_path := "./src/a.py"; ev_kind := Modified |}.

Definition touch_b : ChangeEvent :=
  {| ev_path := "./src/b.py"; ev_kind := Modified |}.

(** A second target beside [./src], and a touch under it. *)
Definition lib : WatchTarget := {| wt_path := "./lib"; wt_rules := [".py"] |}.

Definition cfg2 : Config :=
  {| targets := [src; lib]; action := exits_1_once; debounce := 200 |}.

Definition touch_lib : ChangeEvent :=
  {| ev_path := "./lib/c.py"; ev_kind := Modified |}.

End Scenario.

(** ** Properties of the packaging descriptor *)

Import Setup.

(** The syntax tree above is the one the text of the file denotes. *)
Lemma setup_py_reads : read_module setup_py = Some setup_module.
Proof. vm_compute. reflexivity. Qed.

(** C7: the call declares the project name [livedev], and its
    [install_requires] list has exactly one entry, the requirement
    [inotify>=0.2.10]: project inotify, bound at least 0.2.10. *)
Theorem setup_declares_livedev_requiring_inotify :
  kwarg "name" setup_kwargs = Some (PyStr "livedev") /\
  kwarg "install_requires" setup_kwargs = Some (PyList ["inotify>=0.2.10"]) /\
  List.length (kwlist "install_requires" setup_kwargs) = 1 /\
  map parse_requirement (kwlist "install_requires" setup_kwargs) =
    [ {| req_name := "inotify"; req_operator := ">="; req_version := "0.2.10" |} ].
Proof. repeat split; reflexivity. Qed.

(** C8: the call declares exactly one script, at path [livedev/livedev],
    installed under the name [livedev]; it has no [entry_points] keyword and
    no keyword besides the nine listed, so nothing declares flags or
    subcommands. *)
Theorem setup_declares_one_script :
  kwarg "scripts" setup_kwargs = Some (PyList ["livedev/livedev"]) /\
  List.length (kwlist "scripts" setup_kwargs) = 1 /\
  map basename (kwlist "scripts" setup_kwargs) = ["livedev"] /\
  kwarg "entry_points" setup_kwargs = None /\
  map fst setup_kwargs =
    [ "name"; "author"; "maintainer"; "description"; "license"; "scripts";
      "install_requires"; "tests_require"; "packages" ].
Proof. repeat split; reflexivity. Qed.

(** C9: [setup.py] is 23 lines long; read as a module it is the import of
    [setup] followed by the one [setup(...)] call, which opens on line 3 and
    closes on line 23, and every line in between is a keyword, a list item,
    a closing bracket or a comment. *)
Theorem setup_py_is_23_lines_of_declaration :
  List.length setup_py = 23 /\
  read_module setup_py =
    Some [ ImportFrom "setuptools" "setup"; Call "setup" setup_kwargs ] /\
  map classify setup_py =
    [ LImport "setuptools" "setup"; LBlank; LOpen "setup";
      LKwStr "name" "livedev"; LKwStr "author" "Samuel Angebault";
      LKwStr "maintainer" "Samuel Angebault"; LKwStr "description" EmptyString;
      LKwStr "license" "MIT";
      LKwList "scripts"; LItem "livedev/livedev"; LEndList;
      LKwList "install_requires"; LItem "inotify>=0.2.10"; LEndList;
      LKwList "tests_require"; LItem "pytest"; LEndList;
      LKwList "packages"; LItem "tests"; LEndList;
      LComment; LComment; LClose ].
Proof. repeat split; vm_compute; reflexivity. Qed.

(** C10: the [packages] list is exactly [tests], so no [livedev] package is
    among the packages, and no [py_modules] keyword adds a module; the code
    of the tool is named only by the [scripts] entry; the description is the
    empty string and there is no [version] keyword. *)
Theorem setup_ships_no_livedev_package :
  kwarg "packages" setup_kwargs = Some (PyList ["tests"]) /\
  ~ In "livedev" (kwlist "packages" setup_kwargs) /\
  kwarg "py_modules" setup_kwargs = None /\
  kwlist "scripts" setup_kwargs = ["livedev/livedev"] /\
  kwarg "description" setup_kwargs = Some (PyStr EmptyString) /\
  kwarg "version" setup_kwargs = None.
Proof.
  repeat split; try reflexivity.
  simpl. intros [H | []]. discriminate H.
Qed.

(** *** What else the call declares *)

Lemma kwarg_In (l : list (string * PyValue)) (k : string) (v : PyValue) :
  kwarg k l = Some v -> In (k, v) l.
Proof.
  induction l as [| [k' v'] l IH]; cbn [kwarg]; [discriminate |].
  destruct (String.eqb k k') eqn:E.
  - apply String.eqb_eq in E. intro H. left. congruence.
  - intro H. right. apply IH, H.
Qed.

Lemma In_kwarg (l : list (string * PyValue)) (k : string) (v : PyValue) :
  NoDup (map fst l) -> In (k, v) l -> kwarg k l = Some v.
Proof.
  induction l as [| [k' v'] l IH]; cbn [kwarg map fst]; intros ND Hin.
  - destruct Hin.
  - inversion ND as [| x xs Hnotin ND']; subst.
    destruct Hin as [E | Hin].
    + inversion E; subst. rewrite String.eqb_refl. reflexivity.
    + destruct (String.eqb k k') eqn:Ek.
      * apply String.eqb_eq in Ek. subst k'. exfalso. apply Hnotin.
        exact (in_map fst _ _ Hin).
      * apply IH; assumption.
Qed.

Lemma kwarg_permutation (l l' : list (string * PyValue)) (k : string) :
  NoDup (map fst l) -> Permutation l l' -> kwarg k l' = kwarg k l.
Proof.
  intros ND P.
  assert (ND' : NoDup (map fst l')).
  { eapply Permutation_NoDup; [apply Permutation_map; exact P | exact ND]. }
  destruct (kwarg k l) as [v |] eqn:E.
  - apply In_kwarg; [exact ND' |].
    eapply Permutation_in; [exact P | apply kwarg_In, E].
  - destruct (kwarg k l') as [v' |] eqn:E'; [| reflexivity].
    apply kwarg_In in E'.
    apply (Permutation_in _ (Permutation_sym P)) in E'.
    apply (In_kwarg _ _ _ ND) in E'. congruence.
Qed.

Lemma setup_keys_NoDup : NoDup (map fst setup_kwargs).
Proof.
  cbn [map fst setup_kwargs].
  repeat (constructor;
          [ cbn [In]; intro H;
            repeat (destruct H as [H | H]; [discriminate H |]); exact H |]).
  constructor.
Qed.

(** X1: no keyword is passed twice to [setup(...)], so a keyword has the
    value [v] in the call exactly when the pair (keyword, [v]) is written
    in it: looking a keyword up never hides a second binding. *)
Theorem setup_keywords_are_distinct :
  NoDup (map fst setup_kwargs) /\
  (forall k v, kwarg k setup_kwargs = Some v <-> In (k, v) setup_kwargs).
Proof.
  split; [apply setup_keys_NoDup |].
  intros k v. split; [apply kwarg_In | apply In_kwarg, setup_keys_NoDup].
Qed.

(** X2: the order in which the keywords are written is immaterial: the
    call with its keywords in any other order declares the same value for
    every keyword. *)
Theorem setup_keyword_order_is_immaterial
  (kws : list (string * PyValue)) :
  Permutation setup_kwargs kws ->
  forall k, kwarg k kws = kwarg k setup_kwargs.
Proof.
  intros P k. apply kwarg_permutation; [apply setup_keys_NoDup | exact P].
Qed.

Lemma setup_keyword_order_is_immaterial_witness :
  Permutation setup_kwargs (rev setup_kwargs) /\
  (forall k, kwarg k (rev setup_kwargs) = kwarg k setup_kwargs).
Proof.
  assert (P : Permutation setup_kwargs (rev setup_kwargs))
    by apply Permutation_rev.
  split; [exact P |].
  exact (setup_keyword_order_is_immaterial (rev setup_kwargs) P).
Defined.

(** X3: the two [test_suite] lines (21 and 22) are comments: the call
    declares no [test_suite] keyword, and the file without these two lines
    is the same module. *)
Theorem setup_test_suite_is_commented_out :
  map classify (firstn 2 (skipn 20 setup_py)) = [LComment; LComment] /\
  kwarg "test_suite" setup_kwargs = None /\
  List.length (without_lines 21 22 setup_py) = 21 /\
  read_module (without_lines 21 22 setup_py) = read_module setup_py.
Proof. repeat split; vm_compute; reflexivity. Qed.

(** X4: the test requirements are one entry, [pytest], with no version
    bound, and no project is both a test requirement and an install
    requirement. *)
Theorem setup_test_requirement_is_unpinned_pytest :
  kwarg "tests_require" setup_kwargs = Some (PyList ["pytest"]) /\
  map parse_requirement (kwlist "tests_require" setup_kwargs) =
    [ {| req_name := "pytest"; req_operator := EmptyString;
         req_version := EmptyString |} ] /\
  (forall n, In n (requirement_names "tests_require" setup_kwargs) ->
             ~ In n (requirement_names "install_requires" setup_kwargs)).
Proof.
  split; [reflexivity |]. split; [reflexivity |].
  intros n Ht Hi. vm_compute in Ht, Hi.
  destruct Ht as [Ht | []]. destruct Hi as [Hi | []].
  subst n. discriminate Hi.
Qed.

(** X5: the module imports one name, [setup] from [setuptools], and its
    only call is to that name: nothing is called before it is bound, and
    nothing imported is left unused. *)
Theorem setup_calls_only_what_it_imports :
  imports setup_module = [("setuptools", "setup")] /\
  calls_bound [] setup_module = true /\
  (forall md n, In (md, n) (imports setup_module) ->
                exists kws, In (Call n kws) setup_module).
Proof.
  split; [reflexivity |]. split; [reflexivity |].
  intros md n H. cbn in H. destruct H as [H | []].
  inversion H; subst. exists setup_kwargs. right. left. reflexivity.
Qed.

(** X6: the call names the same person as author and as maintainer, its
    license is MIT, and the description is the only string-valued keyword
    left empty. *)
Theorem setup_metadata :
  kwstr "author" setup_kwargs = Some "Samuel Angebault" /\
  kwstr "maintainer" setup_kwargs = kwstr "author" setup_kwargs /\
  kwstr "license" setup_kwargs = Some "MIT" /\
  (forall k, kwstr k setup_kwargs = Some EmptyString <-> k = "description").
Proof.
  split; [reflexivity |]. split; [reflexivity |]. split; [reflexivity |].
  intro k. split.
  - unfold kwstr. intro H.
    destruct (kwarg k setup_kwargs) as [[s | xs] |] eqn:E; try discriminate.
    inversion H; subst s. apply kwarg_In in E. cbn [In setup_kwargs] in E.
    repeat (destruct E as [E | E]; [inversion E; subst; try reflexivity |]);
      try discriminate.
    destruct E.
  - intro E. subst k. reflexivity.
Qed.

(** ** Properties of the watcher loop *)

Import Watcher.

(** *** Reading the log *)

Lemma invocations_app (a b : list Effect) :
  invocations (a ++ b) = invocations a ++ invocations b.
Proof.
  induction a as [| x a IH]; simpl; [reflexivity |].
  destruct x; simpl; rewrite IH; reflexivity.
Qed.

Lemma released_app (a b : list Effect) :
  released (a ++ b) = released a ++ released b.
Proof.
  induction a as [| x a IH]; simpl; [reflexivity |].
  destruct x; simpl; rewrite IH; reflexivity.
Qed.

Lemma reported_app (a b : list Effect) :
  reported (a ++ b) = reported a ++ reported b.
Proof.
  induction a as [| x a IH]; simpl; [reflexivity |].
  destruct x; simpl; rewrite IH; reflexivity.
Qed.

Lemma released_map_Released (ws : list WatchTarget) :
  released (map Released ws) = ws.
Proof. induction ws; simpl; congruence. Qed.

Lemma released_map_Subscribed (ws : list WatchTarget) :
  released (map Subscribed ws) = [].
Proof. induction ws; simpl; congruence. Qed.

Lemma invocations_map_Released (ws : list WatchTarget) :
  invocations (map Released ws) = [].
Proof. induction ws; simpl; congruence. Qed.

Lemma invocations_map_Subscribed (ws : list WatchTarget) :
  invocations (map Subscribed ws) = [].
Proof. induction ws; simpl; congruence. Qed.


Lemma target_eqb_eq (a b : WatchTarget) : target_eqb a b = true <-> a = b.
Proof.
  unfold target_eqb. destruct (target_eq_dec a b); split; congruence.
Qed.

Section Loop.

Variable cfg : Config.

(** *** One invocation *)

Lemma invoke_invocations w t st :
  invocations (log (invoke cfg w t st)) = invocations (log st) ++ [(w, t)].
Proof.
  unfold invoke. simpl. rewrite invocations_app. simpl.
  destruct (failed _); reflexivity.
Qed.

Lemma invoke_released w t st :
  released (log (invoke cfg w t st)) = released (log st).
Proof.
  unfold invoke. simpl. rewrite released_app. simpl.
  destruct (failed _); simpl; apply app_nil_r.
Qed.

(** *** Firing a list of elapsed timers *)

Lemma fire_frame due : forall st,
  status (fire cfg due st) = status st /\ now (fire cfg due st) = now st /\
  subs (fire cfg due st) = subs st /\ timers (fire cfg due st) = timers st.
Proof.
  induction due as [| p due IH]; intro st; simpl; [tauto |].
  destruct (IH (invoke cfg (fst p) (snd p) st)) as (H1 & H2 & H3 & H4).
  unfold fire in *. rewrite H1, H2, H3, H4. simpl. tauto.
Qed.

Lemma fire_invocations due : forall st,
  invocations (log (fire cfg due st)) = invocations (log st) ++ due.
Proof.
  induction due as [| [w t] due IH]; intro st; simpl.
  - symmetry. apply app_nil_r.
  - unfold fire in *. rewrite IH, invoke_invocations. simpl.
    rewrite <- app_assoc. reflexivity.
Qed.

Lemma fire_released due : forall st,
  released (log (fire cfg due st)) = released (log st).
Proof.
  induction due as [| [w t] due IH]; intro st; simpl; [reflexivity |].
  unfold fire in *. rewrite IH. apply invoke_released.
Qed.

Lemma fire_due_frame st :
  status (fire_due cfg st) = status st /\ now (fire_due cfg st) = now st /\
  subs (fire_due cfg st) = subs st /\
  timers (fire_due cfg st) =
    filter (fun p => negb (is_due (now st) p)) (timers st).
Proof.
  unfold fire_due.
  destruct (fire_frame (filter (is_due (now st)) (timers st))
              (with_timers (filter (fun p => negb (is_due (now st) p)) (timers st)) st))
    as (H1 & H2 & H3 & H4).
  unfold fire in *. rewrite H1, H2, H3, H4. simpl. tauto.
Qed.

Lemma fire_due_invocations st :
  invocations (log (fire_due cfg st)) =
  invocations (log st) ++ filter (is_due (now st)) (timers st).
Proof. unfold fire_due. apply (fire_invocations _ (with_timers _ st)). Qed.

Lemma fire_due_released st :
  released (log (fire_due cfg st)) = released (log st).
Proof. unfold fire_due. apply (fire_released _ (with_timers _ st)). Qed.

(** *** Waiting, and the loop as a whole *)

Lemma wait_frame dt st :
  status (wait cfg dt st) = status st /\ now (wait cfg dt st) = now st + dt /\
  subs (wait cfg dt st) = subs st /\
  timers (wait cfg dt st) =
    filter (fun p => negb (is_due (now st + dt) p)) (timers st).
Proof. unfold wait. apply (fire_due_frame (with_now _ st)). Qed.

Lemma wait_invocations dt st :
  invocations (log (wait cfg dt st)) =
  invocations (log st) ++ filter (is_due (now st + dt)) (timers st).
Proof. unfold wait. apply (fire_due_invocations (with_now _ st)). Qed.

Lemma run_app st tr1 tr2 :
  run cfg st (tr1 ++ tr2) = run cfg (run cfg st tr1) tr2.
Proof. unfold run. apply fold_left_app. Qed.

Lemma run_nil st : run cfg st [] = st.
Proof. reflexivity. Qed.

Lemma run_cons st i tr : run cfg st (i :: tr) = run cfg (step cfg st i) tr.
Proof. reflexivity. Qed.

Lemma step_wait st dt :
  status st = Watching -> step cfg st (Wait dt) = wait cfg dt st.
Proof. intro H. unfold step. rewrite H. reflexivity. Qed.

Lemma step_change st e :
  status st = Watching -> step cfg st (Change e) = on_change cfg e st.
Proof. intro H. unfold step. rewrite H. reflexivity. Qed.

Lemma step_interrupt st :
  status st = Watching -> step cfg st Interrupt = shutdown st.
Proof. intro H. unfold step. rewrite H. reflexivity. Qed.

Lemma step_stopped st i : status st = Stopped -> step cfg st i = st.
Proof. intro H. unfold step. rewrite H. reflexivity. Qed.

Lemma run_stopped tr : forall st, status st = Stopped -> run cfg st tr = st.
Proof.
  induction tr as [| i tr IH]; intros st H; [reflexivity |].
  rewrite run_cons, step_stopped by assumption. apply IH, H.
Qed.



(** *** Debouncing *)



Lemma schedule_cons g e rest :
  schedule ((g, e) :: rest) = Wait g :: Change e :: schedule rest.
Proof. reflexivity. Qed.



(** Once every timer in flight is due within a debounce interval, events
    at least that far apart each get an invocation of their own. *)
Lemma spaced_run rest : forall st q,
  status st = Watching ->
  Forall (fun p => snd p <= now st + debounce cfg) (timers st) ->
  Forall (fun a => debounce cfg <= fst a) rest ->
  debounce cfg <= q ->
  invocations (log (run cfg st (schedule rest ++ [Wait q]))) =
  invocations (log st) ++ timers st
    ++ settled (debounce cfg) (subs st) (now st) rest.
Proof.
  assert (all_due : forall t (ts : list (WatchTarget * nat)),
             Forall (fun p => snd p <= t) ts ->
             filter (is_due t) ts = ts /\
             filter (fun p => negb (is_due t p)) ts = []).
  { intros t ts H. induction H as [| p ts Hp _ [IH1 IH2]]; simpl; [tauto |].
    assert (D : is_due t p = true) by (unfold is_due; apply Nat.leb_le; exact Hp).
    rewrite D. simpl. rewrite IH1, IH2. tauto. }
  induction rest as [| [g e] rest IH]; intros st q Hs Ht Hall Hq.
  - change (schedule [] ++ [Wait q]) with [Wait q].
    rewrite run_cons, step_wait by assumption.
    unfold run. simpl. rewrite wait_invocations, app_nil_r.
    destruct (all_due (now st + q) (timers st)) as [E _].
    { eapply Forall_impl; [| exact Ht]. simpl. intros; lia. }
    rewrite E. reflexivity.
  - inversion Hall as [| a l Hg Hrest]; subst. simpl in Hg.
    destruct (wait_frame g st) as (Ws & Wn & Wsub & Wt).
    pose proof (wait_invocations g st) as Wi.
    destruct (all_due (now st + g) (timers st)) as [E1 E2].
    { eapply Forall_impl; [| exact Ht]. simpl. intros; lia. }
    rewrite E1 in Wi. rewrite E2 in Wt.
    rewrite schedule_cons. simpl app.
    rewrite !run_cons, step_wait, step_change by congruence.
    unfold on_change. rewrite Wsub.
    set (st1 := wait cfg g st) in *.
    simpl settled.
    destruct (target_of (subs st) e) as [w |].
    + rewrite IH; try assumption.
      * simpl. rewrite Wi, Wt, Wsub, Wn. unfold restart. simpl.
        rewrite <- !app_assoc. reflexivity.
      * simpl. congruence.
      * simpl. rewrite Wt. unfold restart. simpl. repeat constructor.
    + rewrite IH; try assumption.
      * rewrite Wi, Wt, Wsub, Wn. simpl. rewrite <- app_assoc. reflexivity.
      * congruence.
      * rewrite Wt. constructor.
Qed.

Lemma settled_relevant d ss arrivals : forall t0,
  Forall (fun a => target_of ss (snd a) <> None) arrivals ->
  List.length (settled d ss t0 arrivals) = List.length arrivals /\
  map snd (settled d ss t0 arrivals) =
    map (fun t => t + d) (arrival_times t0 arrivals) /\
  map (fun p => Some (fst p)) (settled d ss t0 arrivals) =
    map (fun a => target_of ss (snd a)) arrivals.
Proof.
  induction arrivals as [| [g e] rest IH]; intros t0 H.
  - simpl. tauto.
  - inversion H as [| a l He Hrest]; subst. simpl in He.
    destruct (IH (t0 + g) Hrest) as (L & T & W).
    simpl. destruct (target_of ss e) as [w |]; [| congruence].
    simpl. rewrite L, T, W. tauto.
Qed.

Lemma first_event st g e :
  status st = Watching -> timers st = [] ->
  let st' := run cfg st [Wait g; Change e] in
  status st' = Watching /\ subs st' = subs st /\ now st' = now st + g /\
  invocations (log st') = invocations (log st) /\
  timers st' = match target_of (subs st) e with
               | Some w => [(w, now st + g + debounce cfg)]
               | None => []
               end.
Proof.
  intros Hs Ht. cbv zeta.
  destruct (wait_frame g st) as (Ws & Wn & Wsub & Wt).
  pose proof (wait_invocations g st) as Wi.
  rewrite Ht in Wt, Wi. cbn [filter] in Wt, Wi. rewrite app_nil_r in Wi.
  rewrite !run_cons, step_wait, step_change by congruence.
  unfold run. cbn [fold_left]. unfold on_change. rewrite Wsub.
  destruct (target_of (subs st) e) as [w |].
  - cbn [status subs now log timers with_timers].
    rewrite Wt, Wn, Wi, Ws, Wsub. unfold restart. cbn [filter app].
    split; [assumption |]. split; [reflexivity |]. split; [reflexivity |].
    split; reflexivity.
  - rewrite Wt, Wn, Wi, Ws, Wsub.
    split; [assumption |]. split; [reflexivity |]. split; [reflexivity |].
    split; reflexivity.
Qed.

Lemma start_invocations : invocations (log (start cfg)) = [].
Proof. unfold start. cbn [log]. apply invocations_map_Subscribed. Qed.

Lemma start_first_event g e :
  let st := run cfg (start cfg) [Wait g; Change e] in
  status st = Watching /\ subs st = subs (start cfg) /\ now st = g /\
  invocations (log st) = [] /\
  timers st = match target_of (subs (start cfg)) e with
              | Some w => [(w, g + debounce cfg)]
              | None => []
              end.
Proof.
  cbv zeta.
  destruct (first_event (start cfg) g e eq_refl eq_refl) as (A & B & C & D & E).
  rewrite start_invocations in D.
  change (now (start cfg)) with 0 in C, E. cbn [Nat.add] in C, E.
  split; [exact A |]. split; [exact B |]. split; [exact C |].
  split; [exact D | exact E].
Qed.


(** C2: when every event is relevant to some target and each arrives
    strictly more than a debounce interval after the one before, the loop
    invokes the action once per event: as many invocations as events, each
    a debounce interval after its event, for that event's target. *)
Theorem spaced_events_invoke_action_once_each
  (arrivals : list (nat * ChangeEvent)) (q : nat) :
  Forall (fun a => target_of (subs (start cfg)) (snd a) <> None) arrivals ->
  Forall (fun a => debounce cfg < fst a) (tl arrivals) ->
  debounce cfg <= q ->
  let fired :=
    invocations (log (run cfg (start cfg) (schedule arrivals ++ [Wait q]))) in
  List.length fired = List.length arrivals /\
  map snd fired = map (fun t => t + debounce cfg) (arrival_times 0 arrivals) /\
  map (fun p => Some (fst p)) fired =
    map (fun a => target_of (subs (start cfg)) (snd a)) arrivals.
Proof.
  intros Hrel Hgap Hq.
  assert (E : invocations
                (log (run cfg (start cfg) (schedule arrivals ++ [Wait q])))
              = settled (debounce cfg) (subs (start cfg)) 0 arrivals).
  { destruct arrivals as [| [g e] rest].
    - change (schedule [] ++ [Wait q]) with [Wait q].
      rewrite run_cons, run_nil, step_wait by reflexivity.
      rewrite wait_invocations. cbn [start timers log filter]. rewrite app_nil_r. apply invocations_map_Subscribed.
    - cbn [tl] in Hgap.
      destruct (start_first_event g e) as (Fs & Fsub & Fn & Fi & Ft).
      assert (Hsplit : schedule ((g, e) :: rest) ++ [Wait q]
                       = [Wait g; Change e] ++ (schedule rest ++ [Wait q]))
        by reflexivity.
      rewrite Hsplit, run_app.
      set (st1 := run cfg (start cfg) [Wait g; Change e]) in *.
      rewrite spaced_run; try assumption.
      + rewrite Fi, Ft, Fsub, Fn. cbn [settled app].
        destruct (target_of (subs (start cfg)) e); reflexivity.
      + rewrite Ft, Fn. destruct (target_of _ e); repeat constructor.
      + eapply Forall_impl; [| exact Hgap]. cbn beta. intros; lia. }
  cbv zeta. rewrite E. apply settled_relevant. assumption.
Qed.

(** *** Failure of the action *)


















(** *** Shutdown *)

Lemma shutdown_twice st : shutdown (shutdown st) = shutdown st.
Proof. unfold shutdown. cbn. rewrite app_nil_r. reflexivity. Qed.

Lemma start_release_once : release_once (start cfg).
Proof.
  unfold release_once, start. cbn [log subs].
  rewrite released_map_Subscribed. apply NoDup_nodup.
Qed.

Lemma shutdown_release_once st : release_once st -> release_once (shutdown st).
Proof.
  unfold release_once, shutdown. cbn [log subs].
  rewrite released_app, released_map_Released, app_nil_r. trivial.
Qed.

Lemma step_release_once st i : release_once st -> release_once (step cfg st i).
Proof.
  intro H. unfold step. destruct (status st); [| assumption].
  destruct i as [e | dt |].
  - unfold on_change. destruct (target_of _ _); assumption.
  - unfold release_once, wait. rewrite fire_due_released.
    destruct (fire_due_frame (with_now (now st + dt) st)) as (_ & _ & Hsub & _).
    rewrite Hsub. exact H.
  - apply shutdown_release_once, H.
Qed.

Lemma run_release_once tr : forall st,
  release_once st -> release_once (run cfg st tr).
Proof.
  induction tr as [| i tr IH]; intros st H; [assumption |].
  rewrite run_cons. apply IH, step_release_once, H.
Qed.

(** C4: shutting down twice leaves exactly the state one shutdown leaves,
    log of effects included, whatever the state; and in an execution of the
    loop, interrupts included, the releases logged after two shutdowns name
    no subscription twice. *)
Theorem shutdown_is_idempotent :
  (forall st, shutdown (shutdown st) = shutdown st) /\
  (forall tr, NoDup (released (log (shutdown (shutdown (run cfg (start cfg) tr)))))).
Proof.
  split; [apply shutdown_twice |].
  intro tr. rewrite shutdown_twice.
  pose proof (shutdown_release_once _ (run_release_once tr _ start_release_once)) as H.
  unfold release_once in H. cbn [subs shutdown] in H.
  rewrite app_nil_r in H. exact H.
Qed.

(** *** One timer per target *)

Lemma filter_filter_length {A : Type} (p q : A -> bool) (l : list A) :
  List.length (filter p (filter q l)) <= List.length (filter p l).
Proof.
  induction l as [| a l IH]; cbn [filter]; [lia |].
  destruct (q a), (p a) eqn:P; cbn [filter List.length]; rewrite ?P;
    cbn [List.length]; lia.
Qed.

Lemma filter_complement {A : Type} (p : A -> bool) (l : list A) :
  filter p (filter (fun a => negb (p a)) l) = [].
Proof.
  induction l as [| a l IH]; cbn [filter]; [reflexivity |].
  destruct (p a) eqn:P; cbn [negb filter]; rewrite ?P; assumption.
Qed.

Lemma restart_one_timer w0 dl ts w :
  List.length (filter (fun p => target_eqb (fst p) w) ts) <= 1 ->
  List.length (filter (fun p => target_eqb (fst p) w) (restart w0 dl ts)) <= 1.
Proof.
  intro H. unfold restart. rewrite filter_app, length_app.
  cbn [filter fst]. destruct (target_eqb w0 w) eqn:E.
  - apply target_eqb_eq in E. subst w0.
    rewrite (filter_complement (fun p => target_eqb (fst p) w)). cbn. lia.
  - pose proof (filter_filter_length (fun p => target_eqb (fst p) w)
                  (fun p => negb (target_eqb (fst p) w0)) ts).
    cbn [List.length]. lia.
Qed.

Lemma start_one_timer : one_timer_each (start cfg).
Proof. intro w. unfold active_timers, start. cbn. lia. Qed.

Lemma invoke_one_timer w t st :
  one_timer_each st -> one_timer_each (invoke cfg w t st).
Proof. intros H w'. exact (H w'). Qed.

Lemma fire_due_one_timer st :
  one_timer_each st -> one_timer_each (fire_due cfg st).
Proof.
  intros H w. unfold active_timers.
  destruct (fire_due_frame st) as (_ & _ & _ & Ht). rewrite Ht.
  etransitivity; [apply filter_filter_length | apply H].
Qed.

Lemma wait_one_timer dt st :
  one_timer_each st -> one_timer_each (wait cfg dt st).
Proof.
  intro H. unfold wait. apply fire_due_one_timer. intro w. exact (H w).
Qed.

Lemma on_change_one_timer e st :
  one_timer_each st -> one_timer_each (on_change cfg e st).
Proof.
  intros H w. unfold on_change. destruct (target_of _ _) as [w0 |]; [| apply H].
  unfold active_timers. cbn [timers with_timers].
  apply restart_one_timer, H.
Qed.

Lemma shutdown_one_timer st : one_timer_each (shutdown st).
Proof. intro w. unfold active_timers, shutdown. cbn. lia. Qed.

Lemma step_one_timer st i :
  one_timer_each st -> one_timer_each (step cfg st i).
Proof.
  intro H. unfold step. destruct (status st); [| assumption].
  destruct i as [e | dt |].
  - apply on_change_one_timer, H.
  - apply wait_one_timer, H.
  - apply shutdown_one_timer.
Qed.

Lemma run_one_timer tr : forall st,
  one_timer_each st -> one_timer_each (run cfg st tr).
Proof.
  induction tr as [| i tr IH]; intros st H; [assumption |].
  rewrite run_cons. apply IH, step_one_timer, H.
Qed.

(** C5: in every state the loop reaches from startup, each watch target
    has at most one debounce timer in flight, and the state after any
    operation on it (event receipt, the passing of time with the timers it
    fires, an action invocation, shutdown, a whole turn of the loop) again
    has at most one per target. *)
Theorem at_most_one_timer_per_target (tr : list Input) (w : WatchTarget) :
  let st := run cfg (start cfg) tr in
  active_timers w st <= 1 /\
  (forall e, active_timers w (on_change cfg e st) <= 1) /\
  (forall dt, active_timers w (wait cfg dt st) <= 1) /\
  active_timers w (fire_due cfg st) <= 1 /\
  (forall w' t, active_timers w (invoke cfg w' t st) <= 1) /\
  active_timers w (shutdown st) <= 1 /\
  (forall i, active_timers w (step cfg st i) <= 1).
Proof.
  cbv zeta.
  pose proof (run_one_timer tr _ start_one_timer) as H.
  split; [apply H |].
  split; [intro e; apply on_change_one_timer, H |].
  split; [intro dt; apply wait_one_timer, H |].
  split; [apply fire_due_one_timer, H |].
  split; [intros w' t; apply invoke_one_timer, H |].
  split; [apply shutdown_one_timer |].
  intro i. apply step_one_timer, H.
Qed.

(** *** Interrupt *)

(** C6: when the interrupt arrives while a timer [(w, deadline)] is in
    flight, the loop stops, holds no timer and no subscription afterwards,
    has released every subscription it held, has invoked nothing on the
    way, and whatever arrives later changes nothing: the invocations stay
    those made before the interrupt and the abandoned timer never
    fires. *)
Theorem interrupt_abandons_pending_timer
  (st : WatcherState) (w : WatchTarget) (deadline : nat) :
  status st = Watching ->
  In (w, deadline) (timers st) ->
  let st' := step cfg st Interrupt in
  status st' = Stopped /\ timers st' = [] /\ subs st' = [] /\
  released (log st') = released (log st) ++ subs st /\
  invocations (log st') = invocations (log st) /\
  (forall tr,
     run cfg st' tr = st' /\
     invocations (log (run cfg st' tr)) = invocations (log st) /\
     ~ In (w, deadline) (timers (run cfg st' tr))).
Proof.
  intros Hs Hin. cbv zeta. rewrite step_interrupt by assumption.
  assert (Hi : invocations (log (shutdown st)) = invocations (log st)).
  { unfold shutdown. cbn [log]. rewrite invocations_app.
    rewrite invocations_map_Released. apply app_nil_r. }
  assert (Hr : released (log (shutdown st)) = released (log st) ++ subs st).
  { unfold shutdown. cbn [log]. rewrite released_app.
    rewrite released_map_Released. reflexivity. }
  split; [reflexivity |]. split; [reflexivity |]. split; [reflexivity |].
  split; [exact Hr |]. split; [exact Hi |].
  intro tr. rewrite run_stopped by reflexivity.
  split; [reflexivity |]. split; [exact Hi |]. intros [].
Qed.

End Loop.

(** ** The scenarios of the specification, run *)

Import Scenario.

(** Two touches 50 ms apart under a 200 ms debounce: one invocation,
    200 ms after the second touch. *)
Example two_touches_one_invocation :
  invocations
    (log (run cfg (start cfg)
            (schedule [(0, touch_a); (50, touch_b)] ++ [Wait 200])))
  = [(src, 250)].
Proof. vm_compute. reflexivity. Qed.

(** The action exits with status 1: the failure is logged, the loop
    remains watching, and a later touch triggers a new invocation. *)
Example failure_then_touch :
  let st := run cfg (start cfg)
              [Change touch_a; Wait 200; Change touch_b; Wait 200] in
  status st = Watching /\
  log st = [ Subscribed src;
             Invoked src 200 (Exited 1); Reported 200 (Exited 1);
             Invoked src 400 (Exited 0) ].
Proof. vm_compute. split; reflexivity. Qed.

(** An interrupt 50 ms into the debounce window: the subscription is
    released and the action is never invoked, however long one waits. *)
Example interrupt_in_window :
  log (run cfg (start cfg) [Change touch_a; Wait 50; Interrupt; Wait 1000])
  = [ Subscribed src; Released src ].
Proof. vm_compute. reflexivity. Qed.

(** Two targets, one touch under each, 50 ms apart: each target's timer
    fires on its own, so the action is invoked twice. *)
Example touches_under_two_targets :
  invocations
    (log (run cfg2 (start cfg2)
            (schedule [(0, touch_a); (50, touch_lib)] ++ [Wait 200])))
  = [(src, 200); (lib, 250)].
Proof. vm_compute. reflexivity. Qed.



Lemma spaced_events_invoke_action_once_each_witness :
  Forall (fun a => target_of (subs (start cfg)) (snd a) <> None)
         [(0, touch_a); (300, touch_b)] /\
  Forall (fun a => debounce cfg < fst a) (tl [(0, touch_a); (300, touch_b)]) /\
  debounce cfg <= 200 /\
  let fired :=
    invocations
      (log (run cfg (start cfg)
              (schedule [(0, touch_a); (300, touch_b)] ++ [Wait 200]))) in
  List.length fired = 2 /\
  map snd fired = [200; 500] /\
  map (fun p => Some (fst p)) fired = [Some src; Some src].
Proof.
  assert (H1 : Forall (fun a => target_of (subs (start cfg)) (snd a) <> None)
                 [(0, touch_a); (300, touch_b)]).
  { constructor; [vm_compute; discriminate |].
    constructor; [vm_compute; discriminate | constructor]. }
  assert (H2 : Forall (fun a => debounce cfg < fst a)
                 (tl [(0, touch_a); (300, touch_b)])).
  { constructor; [cbn; lia | constructor]. }
  assert (H3 : debounce cfg <= 200) by (cbn; lia).
  split; [exact H1 |]. split; [exact H2 |]. split; [exact H3 |].
  exact (spaced_events_invoke_action_once_each cfg _ 200 H1 H2 H3).
Defined.


Lemma interrupt_abandons_pending_timer_witness :
  let st := run cfg (start cfg) [Change touch_a; Wait 50] in
  status st = Watching /\
  In (src, 200) (timers st) /\
  let st' := step cfg st Interrupt in
  status st' = Stopped /\ timers st' = [] /\ subs st' = [] /\
  released (log st') = released (log st) ++ subs st /\
  invocations (log st') = invocations (log st) /\
  (forall tr,
     run cfg st' tr = st' /\
     invocations (log (run cfg st' tr)) = invocations (log st) /\
     ~ In (src, 200) (timers (run cfg st' tr))).
Proof.
  cbv zeta.
  assert (H1 : status (run cfg (start cfg) [Change touch_a; Wait 50]) = Watching)
    by (vm_compute; reflexivity).
  assert (H2 : In (src, 200)
                 (timers (run cfg (start cfg) [Change touch_a; Wait 50])))
    by (vm_compute; left; reflexivity).
  split; [exact H1 |]. split; [exact H2 |].
  exact (interrupt_abandons_pending_timer cfg _ src 200 H1 H2).
Defined.
